(** * dbn_upper_bound/python/utility.py

    A shallow embedding of the numerical utilities of the project
    (the H_t evaluators of [TT_Ht]) and the properties its specification
    states about them.

    Modelling conventions.
    - A Python [float] is a real number: rounding, overflow and the IEEE
      special values are outside the model.  In particular the
      [OverflowError] that [cmath.exp], [pow] and the conversion of a
      large [int] raise beyond the range of a double, the infinities of
      an overflowing product and the underflow to zero are not
      represented: a theorem that asserts a returned value bounds its
      arguments by [double_floor] and [double_ceiling].  What Python itself does on
      top of the arithmetic is inside it: the int / float / complex
      tower with its coercions, the exceptions raised by division by
      zero, by [cmath.log(0)] and by [float(complex)], the sentinel
      string and the line printed by the real-only functions, default
      arguments and loop variables.
    - Python 3 semantics ([/] is true division).
    - [cmath] and the builtins are the mathematical functions they
      compute, on the principal branch.
    - [scipy.integrate.quad] is an unknown deterministic integrator, a
      variable of the section that holds the module's functions.
    - [scipy.optimize.fsolve], behind the two root finders, is an
      unknown solver, a variable like the integrator. *)

From Stdlib Require Import Reals Lra ZArith Lia List String FunctionalExtensionality.
Import ListNotations.

Local Open Scope bool_scope.
Local Open Scope R_scope.

(** Short names for the real functions, kept apart from the [cmath]
    functions of the same name that the module imports. *)
Abbreviation pi := Rtrigo1.PI (only parsing).
Abbreviation rexp := Rtrigo_def.exp (only parsing).
Abbreviation rcos := Rtrigo_def.cos (only parsing).
Abbreviation rsin := Rtrigo_def.sin (only parsing).
Abbreviation rsqrt := R_sqrt.sqrt (only parsing).
Abbreviation rln := Rpower.ln (only parsing).

(* ================================================================== *)
(** * The Python values and operators the module uses *)
(* ================================================================== *)

Module Python.

Inductive exn := ZeroDivisionError | ValueError | TypeError.

(** The outcome of evaluating an expression or a call. *)
Inductive result (A : Type) : Type :=
| Ok (a : A)
| Raise (e : exn).
Arguments Ok {A} a.
Arguments Raise {A} e.

Definition bind {A B : Type} (m : result A) (k : A -> result B) : result B :=
  match m with
  | Ok a => k a
  | Raise e => Raise e
  end.

Notation "x <- m ;; k" := (bind m (fun x => k))
  (at level 61, m at next level, right associativity).

(** The numeric tower. *)
Inductive num :=
| Int (n : Z)
| Flt (x : R)
| Cpx (re im : R).

(** What a function hands back when it may return a string or a pair
    in place of a number. *)
Inductive pyobj :=
| Number (a : num)
| Str (s : string)
| Pair (a b : num).

(** A call that may print: the lines written to stdout and the object
    returned. *)
Record returned := { stdout : list string; retval : pyobj }.

Definition silent (v : pyobj) : returned := {| stdout := []; retval := v |}.

(** Coercion of an operand to complex, as the mixed-mode operators do. *)
Definition as_complex (a : num) : R * R :=
  match a with
  | Int n => (IZR n, 0)
  | Flt x => (x, 0)
  | Cpx re im => (re, im)
  end.

Definition real_part (a : num) : R := fst (as_complex a).
Definition imag_part (a : num) : R := snd (as_complex a).

(** The value of an [int] or a [float] as a real number. *)
Definition real_value (a : num) : option R :=
  match a with
  | Int n => Some (IZR n)
  | Flt x => Some x
  | Cpx _ _ => None
  end.

Definition is_zero (x : R) : bool := if Req_dec_T x 0 then true else false.
Definition ltb (x y : R) : bool := if Rlt_dec x y then true else false.
Definition leb (x y : R) : bool := if Rle_dec x y then true else false.

Definition add (a b : num) : num :=
  match a, b with
  | Int m, Int n => Int (m + n)
  | Int m, Flt y => Flt (IZR m + y)
  | Flt x, Int n => Flt (x + IZR n)
  | Flt x, Flt y => Flt (x + y)
  | _, _ =>
      let '(ar, ai) := as_complex a in
      let '(br, bi) := as_complex b in
      Cpx (ar + br) (ai + bi)
  end.

Definition sub (a b : num) : num :=
  match a, b with
  | Int m, Int n => Int (m - n)
  | Int m, Flt y => Flt (IZR m - y)
  | Flt x, Int n => Flt (x - IZR n)
  | Flt x, Flt y => Flt (x - y)
  | _, _ =>
      let '(ar, ai) := as_complex a in
      let '(br, bi) := as_complex b in
      Cpx (ar - br) (ai - bi)
  end.

Definition mul (a b : num) : num :=
  match a, b with
  | Int m, Int n => Int (m * n)
  | Int m, Flt y => Flt (IZR m * y)
  | Flt x, Int n => Flt (x * IZR n)
  | Flt x, Flt y => Flt (x * y)
  | _, _ =>
      let '(ar, ai) := as_complex a in
      let '(br, bi) := as_complex b in
      Cpx (ar * br - ai * bi) (ar * bi + ai * br)
  end.

Definition neg (a : num) : num :=
  match a with
  | Int n => Int (- n)
  | Flt x => Flt (- x)
  | Cpx re im => Cpx (- re) (- im)
  end.

(** Quotient of two complex numbers; the zero divisor is an error. *)
Definition complex_quot (a b : R * R) : result num :=
  let '(ar, ai) := a in
  let '(br, bi) := b in
  if is_zero br && is_zero bi then Raise ZeroDivisionError
  else Ok (Cpx ((ar * br + ai * bi) / (br * br + bi * bi))
               ((ai * br - ar * bi) / (br * br + bi * bi))).

Definition float_quot (x y : R) : result num :=
  if is_zero y then Raise ZeroDivisionError else Ok (Flt (x / y)).

(** True division. *)
Definition div (a b : num) : result num :=
  match a, b with
  | Int m, Int n => float_quot (IZR m) (IZR n)
  | Int m, Flt y => float_quot (IZR m) y
  | Flt x, Int n => float_quot x (IZR n)
  | Flt x, Flt y => float_quot x y
  | _, _ => complex_quot (as_complex a) (as_complex b)
  end.

(** [a > b]; complex numbers are not ordered. *)
Definition gt (a b : num) : result bool :=
  match a, b with
  | Int m, Int n => Ok (n <? m)%Z
  | Int m, Flt y => Ok (ltb y (IZR m))
  | Flt x, Int n => Ok (ltb (IZR n) x)
  | Flt x, Flt y => Ok (ltb y x)
  | _, _ => Raise TypeError
  end.

Definition hypot (x y : R) : R := rsqrt (x * x + y * y).

Definition abs_num (a : num) : num :=
  match a with
  | Int n => Int (Z.abs n)
  | Flt x => Flt (Rabs x)
  | Cpx re im => Flt (hypot re im)
  end.

Definition float_num (a : num) : result num :=
  match a with
  | Int n => Ok (Flt (IZR n))
  | Flt x => Ok (Flt x)
  | Cpx _ _ => Raise TypeError
  end.

Definition conjugate_num (a : num) : num :=
  match a with
  | Int n => Int n
  | Flt x => Flt x
  | Cpx re im => Cpx re (- im)
  end.

(** [range(a, b)]. *)
Definition range (a b : Z) : list Z :=
  map (fun i => (a + Z.of_nat i)%Z) (seq 0 (Z.to_nat (b - a))).

(** ** Powers *)

Definition atan2 (y x : R) : R :=
  if ltb 0 x then atan (y / x)
  else if ltb x 0 then (if leb 0 y then atan (y / x) + pi else atan (y / x) - pi)
  else if ltb 0 y then pi / 2
  else if ltb y 0 then - (pi / 2)
  else 0.

(** A complex number to a small non-negative integer power, by repeated
    multiplication. *)
Fixpoint complex_powu (a : num) (n : nat) : num :=
  match n with
  | O => Cpx 1 0
  | S k => mul a (complex_powu a k)
  end.

(** The general complex power. *)
Definition complex_pow (a b : R * R) : result num :=
  let '(ar, ai) := a in
  let '(br, bi) := b in
  if is_zero br && is_zero bi then Ok (Cpx 1 0)
  else if is_zero ar && is_zero ai then
    if negb (is_zero bi) || ltb br 0 then Raise ZeroDivisionError
    else Ok (Cpx 0 0)
  else
    let vabs := hypot ar ai in
    let at_ := atan2 ai ar in
    let len := Rpower vabs br / rexp (at_ * bi) in
    let phase := at_ * br + bi * rln vabs in
    Ok (Cpx (len * rcos phase) (len * rsin phase)).

Definition is_integer (y : R) : bool :=
  if Req_dec_T y (IZR (Int_part y)) then true else false.

Definition float_pow (x y : R) : result num :=
  if is_zero y then Ok (Flt 1)
  else if is_zero x then
    if ltb y 0 then Raise ZeroDivisionError else Ok (Flt 0)
  else if ltb x 0 then
    if is_integer y
    then Ok (Flt ((if Z.odd (Int_part y) then -1 else 1) * Rpower (- x) y))
    else complex_pow (x, 0) (y, 0)
  else Ok (Flt (Rpower x y)).

Definition pow_num (a b : num) : result num :=
  match a, b with
  | Int m, Int n =>
      if (0 <=? n)%Z then Ok (Int (m ^ n)) else float_pow (IZR m) (IZR n)
  | Int m, Flt y => float_pow (IZR m) y
  | Flt x, Int n => float_pow x (IZR n)
  | Flt x, Flt y => float_pow x y
  | Cpx _ _, Int n =>
      if (0 <=? n)%Z then Ok (complex_powu a (Z.to_nat n))
      else div (Cpx 1 0) (complex_powu a (Z.to_nat (- n)))
  | _, _ => complex_pow (as_complex a) (as_complex b)
  end.

(** ** Expressions

    An expression evaluates its operands left to right and stops at the
    first exception. *)

Definition expr := result num.

Definition val (a : num) : expr := Ok a.
Coercion val : num >-> expr.

Definition lift1 (f : num -> num) (a : expr) : expr :=
  x <- a ;; Ok (f x).
Definition lift2 (f : num -> num -> num) (a b : expr) : expr :=
  x <- a ;; y <- b ;; Ok (f x y).
Definition bind2 {A : Type} (f : num -> num -> result A) (a b : expr) : result A :=
  x <- a ;; y <- b ;; f x y.

Definition abs (a : expr) : expr := lift1 abs_num a.
Definition float (a : expr) : expr := x <- a ;; float_num x.
Definition conjugate (a : expr) : expr := lift1 conjugate_num a.
Definition pow (a b : expr) : expr := bind2 pow_num a b.

(** [a or b] on conditions: [b] is evaluated only when [a] is false. *)
Definition or_ (a b : result bool) : result bool :=
  x <- a ;; if x then Ok true else b.

Declare Scope py_scope.
Delimit Scope py_scope with py.
Bind Scope py_scope with expr.
Notation "a + b" := (lift2 add a b) : py_scope.
Notation "a - b" := (lift2 sub a b) : py_scope.
Notation "a * b" := (lift2 mul a b) : py_scope.
Notation "a / b" := (bind2 div a b) : py_scope.
Notation "- a" := (lift1 neg a) : py_scope.
Notation "a > b" := (bind2 gt a b) : py_scope.

(** The literal [1j]. *)
Definition j : num := Cpx 0 1.

(** ** The range of a double

    Two round bounds well inside the range of the normal doubles (about
    2.2e-308 to 1.8e308), with room for the rounding of a product. *)
Definition double_ceiling : R := 10 ^ 300.

End Python.

(* ================================================================== *)
(** * The imports of the module *)
(* ================================================================== *)

(** [from cmath import exp, log, cos, sqrt]: every argument is coerced
    to complex and the value is complex. *)
Module cmath.
Import Python.

Definition exp_num (a : num) : num :=
  let '(x, y) := as_complex a in
  Cpx (rexp x * rcos y) (rexp x * rsin y).

Definition cos_num (a : num) : num :=
  let '(x, y) := as_complex a in
  Cpx (rcos x * cosh y) (- (rsin x * sinh y)).

(** The principal square root: non-negative real part, and the sign of
    the imaginary part follows that of the argument. *)
Definition sqrt_num (a : num) : num :=
  let '(x, y) := as_complex a in
  if is_zero x && is_zero y then Cpx 0 0
  else
    let s := rsqrt ((Rabs x + hypot x y) / 2) in
    let d := Rabs y / (2 * s) in
    let sign := if ltb y 0 then -1 else 1 in
    if leb 0 x then Cpx s (sign * d) else Cpx d (sign * s).

(** The principal logarithm; [log(0)] is a math domain error. *)
Definition log_num (a : num) : result num :=
  let '(x, y) := as_complex a in
  if is_zero x && is_zero y then Raise ValueError
  else Ok (Cpx (rln (hypot x y)) (atan2 y x)).

Definition exp (a : expr) : expr := lift1 exp_num a.
Definition cos (a : expr) : expr := lift1 cos_num a.
Definition sqrt (a : expr) : expr := lift1 sqrt_num a.
Definition log (a : expr) : expr := x <- a ;; log_num x.

End cmath.

(** [scipy.real] and [scipy.imag] are numpy's: on a Python scalar they
    read its [real] and [imag] attributes. *)
Module scipy.
Import Python.

Definition real_num (a : num) : num :=
  match a with
  | Int n => Int n
  | Flt x => Flt x
  | Cpx re _ => Flt re
  end.

Definition imag_num (a : num) : num :=
  match a with
  | Int _ => Int 0
  | Flt _ => Flt 0
  | Cpx _ im => Flt im
  end.

Definition real (a : expr) : expr := lift1 real_num a.
Definition imag (a : expr) : expr := lift1 imag_num a.

End scipy.

Module constants.
Import Python.

(** Modelled from the spec: [dbn_upper_bound/python/constants.py] is not
    among the sources; the specification describes it as "two fixed real
    scalars (π and π²) used throughout". *)
Definition PI : num := Flt pi.

(** Modelled from the spec: the second constant of the missing
    [constants.py], π². *)
Definition PI_sq : num := Flt (pi * pi).

End constants.

(* ================================================================== *)
(** * utility.py *)
(* ================================================================== *)

Module utility.
Import Python cmath constants.

Local Open Scope string_scope.
Local Open Scope py_scope.

(** [for n in range(a, b): s = body(s, n)], stopping at the first
    exception. *)
Definition for_range {S : Type} (a b : Z) (body : S -> Z -> result S) (s0 : S)
  : result S :=
  fold_left (fun acc n => s <- acc ;; body s n) (range a b) (Ok s0).

(** [return e] from a function that printed nothing. *)
Definition return_ (e : expr) : result returned :=
  v <- e ;; Ok (silent (Number v)).

(** What the two real-only functions do on a complex argument:
    [print(...)] and then [return "error"]. *)
Definition complex_values_not_allowed : returned :=
  {| stdout := ["complex values not allowed for this function"];
     retval := Str "error" |}.

Section Utility.

(** The QUADPACK routine behind [scipy.integrate.quad]: from the
    integrand as a function of the integration variable and the two
    limits to the pair (estimate, absolute error), or to the exception
    that escapes.  The integrand is called on Python floats only. *)
Variable quadpack : (R -> result returned) -> R -> R -> result (R * R).

(** [quad(func, a, b, args=args)] integrates [x |-> func(x, *args)]. *)
Definition quad {A : Type} (func : num -> A -> result returned)
    (a b : R) (args : A) : result (R * R) :=
  quadpack (fun x => func (Flt x) args) a b.

Definition Nt (t T : num) : expr :=
  T <- float T ;;
  T_by_4PI <- T / (Int 4 * PI) ;;
  T_by_4PI * log T_by_4PI - T_by_4PI + (t / Flt 16) * log T_by_4PI.

(** [n_max] defaults to 100. *)
Definition phi_decay (u : num) (n_max : Z) : expr :=
  for_range 1 (n_max + 1) (fun (running_sum : num) n =>
    term1 <- Int 2 * PI_sq * pow (Int n) (Int 4) * exp (Int 9 * u)
             - Int 3 * PI * pow (Int n) (Int 2) * exp (Int 5 * u) ;;
    term2 <- exp (Int (-1) * PI * pow (Int n) (Int 2) * exp (Int 4 * u)) ;;
    running_sum + term1 * term2)
  (Int 0).

Definition Ht_complex_integrand (u z t : num) : expr :=
  exp (t * u * u) * phi_decay u 100 * cos (z * u).

Definition Ht_complex (z t : num) : result (num * num * num) :=
  let real_func a '(b, c) := return_ (scipy.real (Ht_complex_integrand a b c)) in
  let imag_func a '(b, c) := return_ (scipy.imag (Ht_complex_integrand a b c)) in
  real_part <- quad real_func 0 10 (z, t) ;;
  imag_part <- quad imag_func 0 10 (z, t) ;;
  value <- Flt (fst real_part) + j * Flt (fst imag_part) ;;
  Ok (value, Flt (snd real_part), Flt (snd imag_part)).

Definition Ht_complex_zlarge (z t : num) : result (num * num * num) :=
  x <- float (scipy.real z) ;;
  y <- float (scipy.imag z) ;;
  t <- float t ;;
  x_by_4PI <- x / (Int 4 * PI) ;;
  B <- ((PI * t / Int 16) + (x / Int 4)) * log x_by_4PI - (x / Int 4)
       + PI * (Int 9 + y) / Int 8 ;;
  A1 <- PI_sq * sqrt (PI / (Int 2 * j * x)) * pow x_by_4PI ((Int 9 + y) / Int 4) ;;
  A2 <- exp (Int (-1) * PI * x / Int 8) ;;
  A3 <- exp ((t / Int 16) * pow (log x_by_4PI) (Int 2) - (t * PI_sq / Int 64)) ;;
  Ht_without_PIby8_amplitude <- A1 * A3 * exp (- j * B) ;;
  Ht <- Ht_without_PIby8_amplitude * A2 ;;
  Ht_magnitude <- abs Ht ;;
  Ok (Ht, Ht_magnitude, Ht_without_PIby8_amplitude).

Definition Ht_real_integrand (u z t : num) : result returned :=
  complex_given <- or_ (or_ (abs (scipy.imag z) > Int 0)
                            (abs (scipy.imag t) > Int 0))
                       (abs (scipy.imag u) > Int 0) ;;
  if complex_given then Ok complex_values_not_allowed
  else
    u' <- scipy.real u ;;
    z' <- scipy.real z ;;
    t' <- scipy.real t ;;
    let u := u' in let z := z' in let t := t' in
    return_ (scipy.real (exp (t * u * u) * phi_decay u 100 * cos (z * u))).

Definition Ht_real (z t : num) : result returned :=
  complex_given <- or_ (abs (scipy.imag z) > Int 0)
                       (abs (scipy.imag t) > Int 0) ;;
  if complex_given then Ok complex_values_not_allowed
  else
    z' <- scipy.real z ;;
    t' <- scipy.real t ;;
    let z := z' in let t := t' in
    r <- quad (fun u '(z, t) => Ht_real_integrand u z t) 0 10 (z, t) ;;
    Ok (silent (Pair (Flt (fst r)) (Flt (snd r)))).

(** [theta] defaults to 0. *)
Definition Ittheta_scaled_by_exp_z_pi_by_8 (b beta t theta : num) : expr :=
  let Ittheta_integrand_scaled_by_exp_z_pi_by_8 (v b beta t theta : num) : expr :=
    exp (t * (v + j * theta) * (v + j * theta)
         - beta * exp (Int 4 * (v + j * theta))
         + j * b * (v + j * theta)
         + PI * scipy.real b / Int 8) in
  let real_func a1 '(a2, a3, a4, a5) :=
    return_ (scipy.real (Ittheta_integrand_scaled_by_exp_z_pi_by_8 a1 a2 a3 a4 a5)) in
  let imag_func a1 '(a2, a3, a4, a5) :=
    return_ (scipy.imag (Ittheta_integrand_scaled_by_exp_z_pi_by_8 a1 a2 a3 a4 a5)) in
  real_part <- quad real_func 0 10 (b, beta, t, theta) ;;
  imag_part <- quad imag_func 0 10 (b, beta, t, theta) ;;
  Flt (fst real_part) + j * Flt (fst imag_part).

(** A call whose arguments are expressions: they are evaluated in order
    before the function is entered. *)
Definition call4 (f : num -> num -> num -> num -> expr) (a b c d : expr) : expr :=
  a <- a ;; b <- b ;; c <- c ;; d <- d ;; f a b c d.

(** [n] defaults to 5; any object may be passed for it. *)
Definition Kttheta_scaled_by_exp_z_pi_by_8 {A : Type} (z t : num) (n : A) : expr :=
  theta <- PI / Int 8 - Int 1 / (Int 4 * scipy.real z) ;;
  for_range 1 5 (fun (running_sum : num) n =>
    running_sum
    + (Int 2 * PI_sq * Int n * Int n * Int n * Int n
         * call4 Ittheta_scaled_by_exp_z_pi_by_8 (z - Cpx 0 9) (PI * Int n * Int n) t theta
       - Int 3 * PI * Int n * Int n
         * call4 Ittheta_scaled_by_exp_z_pi_by_8 (z - Cpx 0 5) (PI * Int n * Int n) t theta))
  (Int 0).

Definition Ht_large_scaled_by_exp_z_pi_by_8 (z t : num) : expr :=
  Flt 0.5 * (Kttheta_scaled_by_exp_z_pi_by_8 z t (Int 5)
             + conjugate (z' <- conjugate z ;;
                          Kttheta_scaled_by_exp_z_pi_by_8 z' t (Int 5))).

(** ** The specification's wording of [Kttheta_scaled_by_exp_z_pi_by_8]

    "sets theta = π/8 − 1/(4·Re(z)), then sums over index n = 1..4 the
    combination 2π²n⁴·I(z−9i, πn², t, θ) − 3πn²·I(z−5i, πn², t, θ)":
    no parameter [n], and the powers of [n] written as powers. *)
Definition Kttheta_as_specified (z t : num) : expr :=
  theta <- PI / Int 8 - Int 1 / (Int 4 * scipy.real z) ;;
  fold_left (fun (sum : expr) (n : Z) =>
    sum + (Int 2 * PI_sq * pow (Int n) (Int 4)
             * call4 Ittheta_scaled_by_exp_z_pi_by_8
                 (z - Cpx 0 9) (PI * pow (Int n) (Int 2)) t theta
           - Int 3 * PI * pow (Int n) (Int 2)
             * call4 Ittheta_scaled_by_exp_z_pi_by_8
                 (z - Cpx 0 5) (PI * pow (Int n) (Int 2)) t theta))
    [1; 2; 3; 4]%Z (Int 0).

End Utility.

(** ** The specification's integrand on the real axis

    "the same real-valued restriction of the integrand
    exp(t·u²)·phi_decay(u)·cos(z·u)", with the series of section 4.1
    truncated at the default [n_max = 100]. *)
Definition phi_term (u n : R) : R :=
  ((2 * pi ^ 2 * n ^ 4 * rexp (9 * u) - 3 * pi * n ^ 2 * rexp (5 * u))
   * rexp (- pi * n ^ 2 * rexp (4 * u)))%R.

Definition phi_series (u : R) (n_max : nat) : R :=
  sum_f 1 n_max (fun n => phi_term u (INR n)).

Definition real_integrand (z t u : R) : R :=
  (rexp (t * u * u) * phi_series u 100 * rcos (z * u))%R.

(** ** An integrator to run the functions on

    The one-point rule: the integrand at the midpoint times the length
    of the interval, with no error estimate.  An integrand that does not
    return a real number is a type error. *)
Definition as_double (v : pyobj) : result R :=
  match v with
  | Number (Int n) => Ok (IZR n)
  | Number (Flt x) => Ok x
  | _ => Raise TypeError
  end.

Definition midpoint_rule (f : R -> result returned) (a b : R) : result (R * R) :=
  r <- f ((a + b) / 2)%R ;;
  y <- as_double (retval r) ;;
  Ok ((b - a) * y, 0)%R.

(** ** The root finders *)

Section RootFinders.

Variable quadpack : (R -> result returned) -> R -> R -> result (R * R).

(** The MINPACK routine behind [scipy.optimize.fsolve], for a system of
    two equations in two unknowns: from the residual as a function of
    the trial vector and the start vector to the vector it stops at, or
    to the exception that escapes.  The vectors of the module all have
    two entries and are pairs here, so that indexing cannot fail. *)
Variable minpack : (R * R -> result (num * num)) -> R * R -> result (R * R).

(** [fsolve(func, x0, args=(t,))] solves [x |-> func(x, t) = 0] from
    the start vector [x0], taken as an array of floats. *)
Definition fsolve {A : Type} (func : num * num -> A -> result (num * num))
    (x0 : num * num) (args : A) : result (R * R) :=
  a <- as_double (Number (fst x0)) ;;
  b <- as_double (Number (snd x0)) ;;
  minpack (fun x => func (Flt (fst x), Flt (snd x)) args) (a, b).

Definition Ht_complex_root_finding_helper (z_as_array : num * num) (t : num)
  : result (num * num) :=
  z <- float (fst z_as_array) + j * float (snd z_as_array) ;;
  r <- Ht_complex quadpack z t ;;
  let Ht := fst (fst r) in
  re <- scipy.real Ht ;;
  im <- scipy.imag Ht ;;
  Ok (re, im).

Definition Ht_complex_root_finder (complex_guess t : num) : expr :=
  re <- scipy.real complex_guess ;;
  im <- scipy.imag complex_guess ;;
  result <- fsolve Ht_complex_root_finding_helper (re, im) t ;;
  Flt (fst result) + j * Flt (snd result).

Definition Ht_large_root_finding_helper (z_as_array : num * num) (t : num)
  : result (num * num) :=
  z <- float (fst z_as_array) + j * float (snd z_as_array) ;;
  val_ <- Ht_large_scaled_by_exp_z_pi_by_8 quadpack z t ;;
  re <- scipy.real val_ ;;
  im <- scipy.imag val_ ;;
  Ok (re, im).

Definition Ht_large_root_finder (complex_guess t : num) : expr :=
  re <- scipy.real complex_guess ;;
  im <- scipy.imag complex_guess ;;
  result <- fsolve Ht_large_root_finding_helper (re, im) t ;;
  Flt (fst result) + j * Flt (snd result).

End RootFinders.

End utility.

(* ================================================================== *)
(** * Properties *)
(* ================================================================== *)

Import Python cmath constants utility.

(** ** Deciding the tests on real numbers *)

Lemma is_zero_true (x : R) : x = 0 -> is_zero x = true.
Proof. intros H. unfold is_zero. destruct (Req_dec_T x 0); [reflexivity | contradiction]. Qed.

Lemma is_zero_false (x : R) : x <> 0 -> is_zero x = false.
Proof. intros H. unfold is_zero. destruct (Req_dec_T x 0); [contradiction | reflexivity]. Qed.

Lemma ltb_true (x y : R) : x < y -> ltb x y = true.
Proof. intros H. unfold ltb. destruct (Rlt_dec x y); [reflexivity | contradiction]. Qed.

Lemma ltb_false (x y : R) : y <= x -> ltb x y = false.
Proof. intros H. unfold ltb. destruct (Rlt_dec x y); [lra | reflexivity]. Qed.

Lemma float_quot_ok (x y : R) : y <> 0 -> float_quot x y = Ok (Flt (x / y)).
Proof. intros H. unfold float_quot. now rewrite (is_zero_false y H). Qed.

Lemma float_quot_zero (x y : R) : y = 0 -> float_quot x y = Raise ZeroDivisionError.
Proof. intros H. unfold float_quot. now rewrite (is_zero_true y H). Qed.

(** ** Loops *)

Lemma for_range_nil {St : Type} (a b : Z) (body : St -> Z -> result St) (s0 : St) :
  (b <= a)%Z -> for_range a b body s0 = Ok s0.
Proof.
  intros H. unfold for_range, range.
  replace (Z.to_nat (b - a)) with O by lia. reflexivity.
Qed.

Lemma for_range_snoc {St : Type} (a b : Z) (body : St -> Z -> result St) (s0 : St) :
  (a <= b)%Z ->
  for_range a (b + 1) body s0 = (s <- for_range a b body s0 ;; body s b).
Proof.
  intros H. unfold for_range, range.
  replace (Z.to_nat (b + 1 - a)) with (S (Z.to_nat (b - a))) by lia.
  rewrite seq_S, map_app, fold_left_app. simpl.
  replace (a + Z.of_nat (Z.to_nat (b - a)))%Z with b by lia.
  reflexivity.
Qed.

(** ** Arithmetic on numbers with no imaginary part

    An [int], a [float] and a complex number [x + 0j] all have
    [imag_part] zero; the operators keep it zero and act on the real
    parts as the real operations do. *)

Lemma as_complex_eq (a : num) : as_complex a = (real_part a, imag_part a).
Proof. unfold real_part, imag_part. now destruct (as_complex a). Qed.

Lemma mul_parts (a b : num) :
  real_part (mul a b) = real_part a * real_part b - imag_part a * imag_part b /\
  imag_part (mul a b) = real_part a * imag_part b + imag_part a * real_part b.
Proof.
  destruct a, b; unfold real_part, imag_part; cbn;
    rewrite ?mult_IZR; split; ring.
Qed.

Lemma mul_real (a b : num) :
  imag_part a = 0 -> imag_part b = 0 ->
  real_part (mul a b) = real_part a * real_part b /\ imag_part (mul a b) = 0.
Proof.
  intros Ha Hb. destruct (mul_parts a b) as [Hr Hi].
  rewrite Hr, Hi, Ha, Hb. split; ring.
Qed.

Lemma mul_Cpx_r (a : num) (c d : R) :
  mul a (Cpx c d)
  = Cpx (real_part a * c - imag_part a * d) (real_part a * d + imag_part a * c).
Proof. destruct a; reflexivity. Qed.

Lemma mul_real_Cpx (a : num) (c : R) :
  imag_part a = 0 -> mul a (Cpx c 0) = Cpx (real_part a * c) 0.
Proof. intros Ha. rewrite mul_Cpx_r, Ha. f_equal; ring. Qed.

Lemma mul_re (c d : R) : mul (Cpx c 0) (Cpx d 0) = Cpx (c * d) 0.
Proof. simpl. f_equal; ring. Qed.

Lemma sub_re (c d : R) : sub (Cpx c 0) (Cpx d 0) = Cpx (c - d) 0.
Proof. simpl. f_equal; ring. Qed.

Lemma add_re (c d : R) : add (Cpx c 0) (Cpx d 0) = Cpx (c + d) 0.
Proof. simpl. f_equal; ring. Qed.

Lemma add_Int0_re (c : R) : add (Int 0) (Cpx c 0) = Cpx c 0.
Proof. simpl. f_equal; ring. Qed.

Lemma exp_num_real (a : num) :
  imag_part a = 0 -> exp_num a = Cpx (rexp (real_part a)) 0.
Proof.
  intros Ha. unfold exp_num. rewrite as_complex_eq, Ha, cos_0, sin_0.
  f_equal; ring.
Qed.

Lemma cos_num_real (a : num) :
  imag_part a = 0 -> cos_num a = Cpx (rcos (real_part a)) 0.
Proof.
  intros Ha. unfold cos_num. rewrite as_complex_eq, Ha, cosh_0, sinh_0.
  f_equal; ring.
Qed.

Lemma pow_Int_Int (m n : Z) :
  (0 <= n)%Z -> pow_num (Int m) (Int n) = Ok (Int (m ^ n)).
Proof. intros H. unfold pow_num. apply Z.leb_le in H. now rewrite H. Qed.

Lemma real_num_parts (a : num) :
  real_part (scipy.real_num a) = real_part a /\ imag_part (scipy.real_num a) = 0.
Proof. destruct a; split; reflexivity. Qed.

(** ** The series evaluator *)

(** One turn of the loop of [phi_decay] adds the term of index [n]. *)
Lemma phi_decay_body (u : num) (n : Z) (running_sum : num) :
  imag_part u = 0 ->
  (term1 <- Int 2 * PI_sq * pow (Int n) (Int 4) * exp (Int 9 * u)
            - Int 3 * PI * pow (Int n) (Int 2) * exp (Int 5 * u) ;;
   term2 <- exp (Int (-1) * PI * pow (Int n) (Int 2) * exp (Int 4 * u)) ;;
   val running_sum + term1 * term2)%py
  = Ok (add running_sum (Cpx (phi_term (real_part u) (IZR n)) 0)).
Proof.
  intros Hu.
  destruct (mul_real (Int 9) u eq_refl Hu) as [R9 I9].
  destruct (mul_real (Int 5) u eq_refl Hu) as [R5 I5].
  destruct (mul_real (Int 4) u eq_refl Hu) as [R4 I4].
  unfold pow, exp, lift2, lift1, bind2, val, bind.
  rewrite (exp_num_real _ I9), (exp_num_real _ I5), (exp_num_real _ I4).
  rewrite R9, R5, R4.
  rewrite !pow_Int_Int by lia.
  rewrite !mul_real_Cpx by reflexivity.
  rewrite exp_num_real by reflexivity.
  rewrite sub_re, mul_re.
  do 3 f_equal. unfold phi_term, PI, PI_sq, real_part. cbn [mul as_complex fst].
  change 4%Z with (Z.of_nat 4). change 2%Z with (Z.of_nat 2).
  rewrite <- !pow_IZR.
  f_equal; [ring | f_equal; ring].
Qed.

Lemma phi_decay_succ (u : num) (k : nat) :
  imag_part u = 0 ->
  phi_decay u (Z.of_nat (S k))
  = Ok (Cpx (sum_f_R0 (fun i => phi_term (real_part u) (INR (S i))) k) 0).
Proof.
  intros Hu. unfold phi_decay. induction k as [|k IH].
  - change (Z.of_nat 1 + 1)%Z with (1 + 1)%Z.
    rewrite for_range_snoc by lia. rewrite for_range_nil by lia. cbn [bind].
    rewrite (phi_decay_body u 1 (Int 0) Hu). now rewrite add_Int0_re.
  - replace (Z.of_nat (S (S k)) + 1)%Z with (Z.of_nat (S k) + 1 + 1)%Z by lia.
    rewrite for_range_snoc by lia. rewrite IH. cbn [bind].
    rewrite (phi_decay_body u _ _ Hu). rewrite add_re.
    cbn [sum_f_R0].
    replace (Z.of_nat (S k) + 1)%Z with (Z.of_nat (S (S k))) by lia.
    now rewrite <- INR_IZR_INZ.
Qed.

Lemma phi_decay_value (u : num) (n_max : Z) :
  imag_part u = 0 ->
  (0 < n_max)%Z ->
  phi_decay u n_max = Ok (Cpx (phi_series (real_part u) (Z.to_nat n_max)) 0).
Proof.
  intros Hu Hn.
  destruct (Z.to_nat n_max) as [|k] eqn:Hk; [lia|].
  replace n_max with (Z.of_nat (S k)) by lia.
  rewrite (phi_decay_succ u k Hu). unfold phi_series, sum_f.
  replace (S k - 1)%nat with k by lia.
  do 2 f_equal. apply sum_eq. intros i _.
  replace (i + 1)%nat with (S i) by lia. reflexivity.
Qed.

(** ** Bounds *)

Lemma below_double_ceiling (x : R) : x <= 10 ^ 12 -> x <= double_ceiling.
Proof.
  intros H. apply Rle_trans with (1 := H). unfold double_ceiling.
  apply Rle_pow; [lra | lia].
Qed.


Lemma exp_le_pow3 (x : R) (n : nat) : x <= INR n -> rexp x <= 3 ^ n.
Proof.
  intros H. apply Rle_trans with (rexp (INR n)).
  - destruct H as [H | ->]; [left; now apply exp_increasing | right; reflexivity].
  - clear H. induction n as [|n IH].
    + cbn. rewrite exp_0. lra.
    + rewrite S_INR, exp_plus. cbn [pow]. rewrite Rmult_comm.
      apply Rmult_le_compat; [left; apply exp_pos | left; apply exp_pos
                             | apply exp_le_3 | exact IH].
Qed.



(** ** The zero-count estimate *)

Lemma hypot_real (x : R) : 0 <= x -> hypot x 0 = x.
Proof.
  intros H. unfold hypot. replace (x * x + 0 * 0) with (x * x) by ring.
  now apply sqrt_square.
Qed.

Lemma atan2_positive_axis (x : R) : 0 < x -> atan2 0 x = 0.
Proof.
  intros H. unfold atan2. rewrite (ltb_true 0 x H).
  unfold Rdiv. now rewrite Rmult_0_l, atan_0.
Qed.

Lemma log_num_positive (a : num) :
  imag_part a = 0 -> 0 < real_part a ->
  log_num a = Ok (Cpx (rln (real_part a)) 0).
Proof.
  intros Ha Hpos. unfold log_num. rewrite as_complex_eq, Ha.
  rewrite (is_zero_false (real_part a)) by lra. cbn [andb].
  rewrite hypot_real by lra. now rewrite atan2_positive_axis.
Qed.



(** ** The integrand on the real axis *)

Lemma guard_false (a : num) :
  imag_part a = 0 -> (abs (scipy.imag a) > Int 0)%py = Ok false.
Proof.
  destruct a; cbn; intros H; try reflexivity.
  - now rewrite Rabs_R0, ltb_false by lra.
  - subst im. now rewrite Rabs_R0, ltb_false by lra.
Qed.

Lemma guard_true (a : num) :
  imag_part a <> 0 -> (abs (scipy.imag a) > Int 0)%py = Ok true.
Proof.
  destruct a; cbn; intros H; try (exfalso; apply H; reflexivity).
  now rewrite ltb_true by (apply Rabs_pos_lt; exact H).
Qed.

(** The guard is either [Ok true] or [Ok false]: it never raises. *)
Lemma guard_cases (a : num) :
  (imag_part a = 0 /\ (abs (scipy.imag a) > Int 0)%py = Ok false) \/
  (imag_part a <> 0 /\ (abs (scipy.imag a) > Int 0)%py = Ok true).
Proof.
  destruct (Req_dec_T (imag_part a) 0) as [H | H].
  - left. split; [exact H | now apply guard_false].
  - right. split; [exact H | now apply guard_true].
Qed.

(** With [u], [z] and [t] on the real axis the complex integrand is the
    real-valued one, held as a complex number. *)
Lemma Ht_complex_integrand_real (u z t : num) :
  imag_part u = 0 -> imag_part z = 0 -> imag_part t = 0 ->
  Ht_complex_integrand u z t
  = Ok (Cpx (real_integrand (real_part z) (real_part t) (real_part u)) 0).
Proof.
  intros Hu Hz Ht.
  destruct (mul_real t u Ht Hu) as [Rtu Itu].
  destruct (mul_real (mul t u) u Itu Hu) as [Rtuu Ituu].
  destruct (mul_real z u Hz Hu) as [Rzu Izu].
  unfold Ht_complex_integrand, exp, cos, lift2, lift1, val, bind.
  rewrite (phi_decay_value u 100 Hu) by lia.
  rewrite (exp_num_real _ Ituu), (cos_num_real _ Izu), !mul_re.
  rewrite Rtuu, Rtu, Rzu. reflexivity.
Qed.

Lemma Ht_real_integrand_rejects (u z t : num) :
  imag_part z <> 0 \/ imag_part t <> 0 \/ imag_part u <> 0 ->
  Ht_real_integrand u z t = Ok complex_values_not_allowed.
Proof.
  intros H. unfold Ht_real_integrand, or_.
  destruct (guard_cases z) as [[Hz ->] | [Hz ->]]; [|reflexivity].
  destruct (guard_cases t) as [[Ht ->] | [Ht ->]]; [|reflexivity].
  destruct (guard_cases u) as [[Hu ->] | [Hu ->]]; [|reflexivity].
  exfalso. destruct H as [H | [H | H]]; contradiction.
Qed.

Lemma Ht_real_integrand_value (u z t : num) :
  imag_part u = 0 -> imag_part z = 0 -> imag_part t = 0 ->
  Ht_real_integrand u z t
  = Ok (silent (Number
      (Flt (real_integrand (real_part z) (real_part t) (real_part u))))).
Proof.
  intros Hu Hz Ht. unfold Ht_real_integrand, or_.
  rewrite (guard_false z Hz), (guard_false t Ht), (guard_false u Hu).
  cbn [bind scipy.real lift1 val].
  destruct (real_num_parts u) as [Ru Iu].
  destruct (real_num_parts z) as [Rz Iz].
  destruct (real_num_parts t) as [Rt It].
  change (return_ (scipy.real (Ht_complex_integrand
            (scipy.real_num u) (scipy.real_num z) (scipy.real_num t)))
          = Ok (silent (Number
              (Flt (real_integrand (real_part z) (real_part t) (real_part u)))))).
  rewrite (Ht_complex_integrand_real _ _ _ Iu Iz It), Ru, Rz, Rt.
  reflexivity.
Qed.

Lemma Ht_real_rejects (quadpack : (R -> result returned) -> R -> R -> result (R * R))
    (z t : num) :
  imag_part z <> 0 \/ imag_part t <> 0 ->
  Ht_real quadpack z t = Ok complex_values_not_allowed.
Proof.
  intros H. unfold Ht_real, or_.
  destruct (guard_cases z) as [[Hz ->] | [Hz ->]]; [|reflexivity].
  destruct (guard_cases t) as [[Ht ->] | [Ht ->]]; [|reflexivity].
  exfalso. destruct H as [H | H]; contradiction.
Qed.

(** Past its guard [Ht_real] hands [Ht_real_integrand], closed over the
    real parts of [z] and [t], to the integrator. *)
Lemma Ht_real_integrates (quadpack : (R -> result returned) -> R -> R -> result (R * R))
    (z t : num) :
  imag_part z = 0 -> imag_part t = 0 ->
  Ht_real quadpack z t
  = (r <- quadpack (fun x => Ht_real_integrand (Flt x)
                                (scipy.real_num z) (scipy.real_num t)) 0 10 ;;
     Ok (silent (Pair (Flt (fst r)) (Flt (snd r))))).
Proof.
  intros Hz Ht. unfold Ht_real, or_.
  rewrite (guard_false z Hz), (guard_false t Ht). reflexivity.
Qed.

Section Integrals.

Variable quadpack : (R -> result returned) -> R -> R -> result (R * R).

(** C4.  [Ht_real(z, t)] with a non-zero imaginary part in [z] or [t],
    and [Ht_real_integrand(u, z, t)] with one in [u], [z] or [t], print
    the message and return the sentinel ["error"], not a number; when
    all the imaginary parts are zero neither of them does. *)
Theorem complex_arguments_are_rejected (u z t : num) :
  (imag_part z <> 0 \/ imag_part t <> 0 ->
   Ht_real quadpack z t = Ok complex_values_not_allowed) /\
  (imag_part z <> 0 \/ imag_part t <> 0 \/ imag_part u <> 0 ->
   Ht_real_integrand u z t = Ok complex_values_not_allowed) /\
  (imag_part z = 0 -> imag_part t = 0 ->
   Ht_real quadpack z t <> Ok complex_values_not_allowed /\
   (imag_part u = 0 ->
    Ht_real_integrand u z t <> Ok complex_values_not_allowed)).
Proof.
  split; [apply Ht_real_rejects|].
  split; [apply Ht_real_integrand_rejects|].
  intros Hz Ht. split.
  - rewrite (Ht_real_integrates quadpack z t Hz Ht).
    destruct (quadpack _ 0 10) as [r | e]; cbn [bind]; discriminate.
  - intros Hu. rewrite (Ht_real_integrand_value u z t Hu Hz Ht). discriminate.
Qed.


(** What [Ht_complex] hands to the integrator when [z] and [t] are on
    the real axis. *)
Lemma Ht_complex_real_func (z t : num) (x : R) :
  imag_part z = 0 -> imag_part t = 0 ->
  return_ (scipy.real (Ht_complex_integrand (Flt x) z t))
  = Ok (silent (Number (Flt (real_integrand (real_part z) (real_part t) x)))).
Proof.
  intros Hz Ht. now rewrite (Ht_complex_integrand_real (Flt x) z t eq_refl Hz Ht).
Qed.

Lemma Ht_complex_imag_func (z t : num) (x : R) :
  imag_part z = 0 -> imag_part t = 0 ->
  return_ (scipy.imag (Ht_complex_integrand (Flt x) z t))
  = Ok (silent (Number (Flt 0))).
Proof.
  intros Hz Ht. now rewrite (Ht_complex_integrand_real (Flt x) z t eq_refl Hz Ht).
Qed.

Lemma assemble_complex (re im : R) :
  (Flt re + j * Flt im)%py = Ok (Cpx re im).
Proof. cbn. do 2 f_equal; ring. Qed.

(** The complex integral, in full. *)
Lemma Ht_complex_unfold (z t : num) :
  Ht_complex quadpack z t
  = (real_part <- quadpack (fun x =>
       return_ (scipy.real (Ht_complex_integrand (Flt x) z t))) 0 10 ;;
     imag_part <- quadpack (fun x =>
       return_ (scipy.imag (Ht_complex_integrand (Flt x) z t))) 0 10 ;;
     Ok (Cpx (fst real_part) (fst imag_part),
         Flt (snd real_part), Flt (snd imag_part))).
Proof.
  unfold Ht_complex, quad.
  destruct (quadpack _ 0 10) as [rp | e]; [|reflexivity]. cbn [bind].
  destruct (quadpack _ 0 10) as [ip | e]; [|reflexivity]. cbn [bind].
  now rewrite assemble_complex.
Qed.


(** C7.  [Ht_complex(z, t)] returns a triple exactly when both
    quadratures over [0, 10] return, that of the real part of the
    integrand and that of its imaginary part; the triple is then the
    complex number made of the two estimates, followed by the error
    estimate of the first quadrature and by that of the second. *)
Theorem Ht_complex_returns_estimates_and_errors
    (z t : num) (value real_err imag_err : num) :
  Ht_complex quadpack z t = Ok (value, real_err, imag_err) <->
  exists re re_err im im_err : R,
    quadpack (fun u => return_ (scipy.real (Ht_complex_integrand (Flt u) z t)))
      0 10 = Ok (re, re_err) /\
    quadpack (fun u => return_ (scipy.imag (Ht_complex_integrand (Flt u) z t)))
      0 10 = Ok (im, im_err) /\
    value = Cpx re im /\ real_err = Flt re_err /\ imag_err = Flt im_err.
Proof.
  rewrite Ht_complex_unfold. split.
  - destruct (quadpack _ 0 10) as [[re re_err] | e]; cbn [bind]; [|discriminate].
    destruct (quadpack _ 0 10) as [[im im_err] | e]; cbn [bind]; [|discriminate].
    intros [= <- <- <-]. exists re, re_err, im, im_err. repeat split; reflexivity.
  - intros (re & re_err & im & im_err & -> & -> & -> & -> & ->). reflexivity.
Qed.

End Integrals.

(** ** The refined large-argument evaluator *)

Lemma fourth_power_coefficient (n : Z) :
  (Int 2 * PI_sq * Int n * Int n * Int n * Int n)%py
  = (Int 2 * PI_sq * pow (Int n) (Int 4))%py.
Proof.
  unfold pow, bind2, lift2, val, bind. rewrite pow_Int_Int by lia.
  unfold PI_sq. cbn [mul]. do 2 f_equal.
  change 4%Z with (Z.of_nat 4). rewrite <- pow_IZR. ring.
Qed.

Lemma second_power_coefficient (n : Z) :
  (Int 3 * PI * Int n * Int n)%py = (Int 3 * PI * pow (Int n) (Int 2))%py.
Proof.
  unfold pow, bind2, lift2, val, bind. rewrite pow_Int_Int by lia.
  unfold PI. cbn [mul]. do 2 f_equal.
  change 2%Z with (Z.of_nat 2). rewrite <- pow_IZR. ring.
Qed.

Lemma second_power_beta (n : Z) :
  (PI * Int n * Int n)%py = (PI * pow (Int n) (Int 2))%py.
Proof.
  unfold pow, bind2, lift2, val, bind. rewrite pow_Int_Int by lia.
  unfold PI. cbn [mul]. do 2 f_equal.
  change 2%Z with (Z.of_nat 2). rewrite <- pow_IZR. ring.
Qed.

Lemma lift2_bind (f : num -> num -> num) (a e : expr) :
  lift2 f a e = (s <- a ;; y <- e ;; Ok (f s y)).
Proof. reflexivity. Qed.

(** [1/(4*scipy.real(z))] when the real part of [z] is zero. *)
Lemma reciprocal_of_zero_real_part (z : num) :
  real_part z = 0 ->
  (Int 1 / (Int 4 * scipy.real z))%py = Raise ZeroDivisionError.
Proof.
  intros Hz. destruct z as [n | x | re im]; unfold real_part in Hz; cbn in Hz; cbn.
  - apply float_quot_zero. apply eq_IZR in Hz. now subst n.
  - apply float_quot_zero. subst x. ring.
  - apply float_quot_zero. subst re. ring.
Qed.

Lemma conjugate_num_real (z : num) : imag_part z = 0 -> conjugate_num z = z.
Proof.
  destruct z as [n | x | re im]; try reflexivity.
  unfold imag_part. cbn. intros ->. now rewrite Ropp_0.
Qed.

Lemma symmetrized_parts (k : num) :
  imag_part (mul (Flt 0.5) (add k (conjugate_num k))) = 0 /\
  real_part (mul (Flt 0.5) (add k (conjugate_num k))) = real_part k.
Proof.
  destruct k as [n | x | re im]; unfold imag_part, real_part; cbn;
    rewrite ?plus_IZR; split; lra.
Qed.

Section Refined.

Variable quadpack : (R -> result returned) -> R -> R -> result (R * R).

Lemma Kttheta_zero_real_part {A : Type} (z t : num) (n : A) :
  real_part z = 0 ->
  Kttheta_scaled_by_exp_z_pi_by_8 quadpack z t n = Raise ZeroDivisionError.
Proof.
  intros Hz. unfold Kttheta_scaled_by_exp_z_pi_by_8.
  rewrite (lift2_bind sub). rewrite (reciprocal_of_zero_real_part z Hz).
  unfold PI. cbn [bind2 bind val div]. now rewrite float_quot_ok by lra.
Qed.

(** C2.  [Kttheta_scaled_by_exp_z_pi_by_8(z, t, n)] is the evaluator
    the specification words: theta = π/8 − 1/(4·Re z), then the sum for
    the index 1, 2, 3, 4 of
    2π²n⁴·I(z−9i, πn², t, θ) − 3πn²·I(z−5i, πn², t, θ); whatever the
    caller passes for [n], of whatever type, does not enter the
    result. *)
Theorem Kttheta_is_the_specified_sum {A : Type} (z t : num) (n : A) :
  Kttheta_scaled_by_exp_z_pi_by_8 quadpack z t n
  = Kttheta_as_specified quadpack z t
  /\ forall (B : Type) (n' : B),
       Kttheta_scaled_by_exp_z_pi_by_8 quadpack z t n
       = Kttheta_scaled_by_exp_z_pi_by_8 quadpack z t n'.
Proof.
  split; [|reflexivity].
  unfold Kttheta_scaled_by_exp_z_pi_by_8, Kttheta_as_specified.
  destruct (PI / Int 8 - Int 1 / (Int 4 * scipy.real z))%py as [theta | e];
    [|reflexivity].
  cbn [bind]. unfold for_range.
  change (range 1 5) with [1; 2; 3; 4]%Z. cbn [fold_left].
  rewrite <- !fourth_power_coefficient, <- !second_power_coefficient,
    <- !second_power_beta.
  reflexivity.
Qed.

(** C3.  [Ht_large_scaled_by_exp_z_pi_by_8(z, t)] is
    0.5·(K(z,t) + conj(K(conj z, t))), with [K] the evaluator above at
    its default [n]; and for [z] with no imaginary part the two values
    of [K] are one, so that the value returned has imaginary part zero
    (and the real part of K(z,t)). *)
Theorem Ht_large_is_the_symmetrization (z t : num) :
  Ht_large_scaled_by_exp_z_pi_by_8 quadpack z t
  = (k <- Kttheta_scaled_by_exp_z_pi_by_8 quadpack z t (Int 5) ;;
     k' <- Kttheta_scaled_by_exp_z_pi_by_8 quadpack (conjugate_num z) t (Int 5) ;;
     Ok (mul (Flt 0.5) (add k (conjugate_num k'))))
  /\ (imag_part z = 0 ->
      forall v : num,
        Ht_large_scaled_by_exp_z_pi_by_8 quadpack z t = Ok v ->
        imag_part v = 0 /\
        exists k : num,
          Kttheta_scaled_by_exp_z_pi_by_8 quadpack z t (Int 5) = Ok k /\
          v = mul (Flt 0.5) (add k (conjugate_num k)) /\
          real_part v = real_part k).
Proof.
  assert (Heq : Ht_large_scaled_by_exp_z_pi_by_8 quadpack z t
    = (k <- Kttheta_scaled_by_exp_z_pi_by_8 quadpack z t (Int 5) ;;
       k' <- Kttheta_scaled_by_exp_z_pi_by_8 quadpack (conjugate_num z) t (Int 5) ;;
       Ok (mul (Flt 0.5) (add k (conjugate_num k'))))).
  { unfold Ht_large_scaled_by_exp_z_pi_by_8, conjugate, lift2, lift1, val.
    cbn [bind].
    destruct (Kttheta_scaled_by_exp_z_pi_by_8 quadpack z t (Int 5)) as [k | e];
      cbn [bind]; [|reflexivity].
    destruct (Kttheta_scaled_by_exp_z_pi_by_8 quadpack (conjugate_num z) t (Int 5))
      as [k' | e]; reflexivity. }
  split; [exact Heq|].
  intros Hz v. rewrite Heq, (conjugate_num_real z Hz).
  destruct (Kttheta_scaled_by_exp_z_pi_by_8 quadpack z t (Int 5)) as [k | e];
    cbn [bind]; [|discriminate].
  intros [= <-]. destruct (symmetrized_parts k) as [Him Hre].
  split; [exact Him|]. exists k. repeat split. exact Hre.
Qed.

(** C5, as the code has it.  When the real part of [z] is zero, the
    division [1/(4*scipy.real(z))] is not guarded and raises
    [ZeroDivisionError]: [Kttheta_scaled_by_exp_z_pi_by_8] returns no
    value and evaluates no integral. *)
Theorem Kttheta_raises_on_zero_real_part {A : Type} (z t : num) (n : A) :
  real_part z = 0 ->
  Kttheta_scaled_by_exp_z_pi_by_8 quadpack z t n = Raise ZeroDivisionError
  /\ Ht_large_scaled_by_exp_z_pi_by_8 quadpack z t = Raise ZeroDivisionError.
Proof.
  intros Hz. split; [now apply Kttheta_zero_real_part|].
  unfold Ht_large_scaled_by_exp_z_pi_by_8.
  rewrite (Kttheta_zero_real_part z t (Int 5) Hz). reflexivity.
Qed.

End Refined.

(** ** The large-argument asymptotic formula *)

Lemma float_num_Ok (a x : num) : float_num a = Ok x -> x = Flt (real_part a).
Proof. destruct a; cbn; intros [= <-]; reflexivity. Qed.

Lemma float_real (z : num) : float (scipy.real z) = Ok (Flt (real_part z)).
Proof. destruct z; reflexivity. Qed.

Lemma float_imag (z : num) : float (scipy.imag z) = Ok (Flt (imag_part z)).
Proof. destruct z; reflexivity. Qed.

Lemma float_of_real (t : num) (tv : R) :
  real_value t = Some tv -> float t = Ok (Flt tv).
Proof. destruct t; cbn; intros [= <-]; reflexivity. Qed.

Lemma complex_quot_ok (ar ai br bi : R) :
  br <> 0 \/ bi <> 0 ->
  complex_quot (ar, ai) (br, bi)
  = Ok (Cpx ((ar * br + ai * bi) / (br * br + bi * bi))
            ((ai * br - ar * bi) / (br * br + bi * bi))).
Proof.
  intros H. unfold complex_quot.
  destruct H as [H | H]; rewrite (is_zero_false _ H);
    rewrite ?Bool.andb_false_r; reflexivity.
Qed.

Lemma float_pow_positive (x y : R) :
  0 < x -> exists v, float_pow x y = Ok (Flt v).
Proof.
  intros Hx. unfold float_pow.
  destruct (is_zero y); [now eexists|].
  rewrite is_zero_false by lra. rewrite ltb_false by lra. now eexists.
Qed.

(** The factor [A2 = exp(-1*PI*x/8)]. *)
Lemma A2_value (x : R) :
  exp (Int (-1) * PI * Flt x / Int 8)%py = Ok (Cpx (rexp (- pi * x / 8)) 0).
Proof.
  unfold exp, PI, lift1, lift2, bind2, val, bind. cbn [mul div].
  rewrite float_quot_ok by lra. rewrite exp_num_real by reflexivity.
  unfold real_part. cbn [as_complex fst]. do 3 f_equal. lra.
Qed.

(** On the right half-plane, for real [t], the formula returns. *)
Lemma Ht_complex_zlarge_returns (z t : num) (tv : R) :
  0 < real_part z -> real_value t = Some tv ->
  exists Ht Ht_magnitude amplitude,
    Ht_complex_zlarge z t = Ok (Ht, Ht_magnitude, amplitude).
Proof.
  intros Hx Ht. pose proof PI_RGT_0 as Hpi.
  assert (Hq : 0 < real_part z / (4 * pi)) by (apply Rdiv_lt_0_compat; lra).
  unfold Ht_complex_zlarge.
  rewrite float_real, float_imag, (float_of_real t tv Ht). cbn [bind].
  unfold PI, PI_sq, j, log, sqrt, exp, pow, abs.
  unfold lift2, lift1, bind2, val. cbn [bind mul div add sub neg].
  rewrite !float_quot_ok by lra. cbn [bind mul div add sub neg].
  rewrite (log_num_positive (Flt (real_part z / (4 * pi))))
    by (try reflexivity; exact Hq).
  cbn [bind mul div add sub neg as_complex].
  rewrite complex_quot_ok by (right; lra).
  cbn [pow_num].
  destruct (float_pow_positive (real_part z / (4 * pi)) ((9 + imag_part z) / 4) Hq)
    as [p ->].
  change (0 <=? 2)%Z with true. cbn [bind].
  do 3 eexists. reflexivity.
Qed.

(** C8.  In the triple [Ht_complex_zlarge(z, t)] returns, the second
    element is [abs] of the first, and the first is the third multiplied
    by exp(−π·x/8), where x is the real part of [z]. *)
Theorem Ht_complex_zlarge_is_consistent
    (z t : num) (Ht Ht_magnitude amplitude : num) :
  Ht_complex_zlarge z t = Ok (Ht, Ht_magnitude, amplitude) ->
  Ht_magnitude = abs_num Ht /\
  Ht = mul amplitude (Cpx (rexp (- pi * real_part z / 8)) 0).
Proof.
  unfold Ht_complex_zlarge.
  destruct (float (scipy.real z)) as [x | e] eqn:Hx; cbn [bind]; [|discriminate].
  destruct (float (scipy.imag z)) as [y | e]; cbn [bind]; [|discriminate].
  destruct (float t) as [t' | e]; cbn [bind]; [|discriminate].
  destruct (x / (Int 4 * PI))%py as [x_by_4PI | e]; cbn [bind]; [|discriminate].
  match goal with |- bind ?m _ = _ -> _ => destruct m as [B | e] end;
    cbn [bind]; [|discriminate].
  match goal with |- bind ?m _ = _ -> _ => destruct m as [A1 | e] end;
    cbn [bind]; [|discriminate].
  apply float_num_Ok in Hx. destruct (real_num_parts z) as [Rz _].
  rewrite Rz in Hx. subst x. rewrite A2_value. cbn [bind].
  match goal with |- bind ?m _ = _ -> _ => destruct m as [A3 | e] end;
    cbn [bind]; [|discriminate].
  match goal with |- bind ?m _ = _ -> _ => destruct m as [amp | e] end;
    cbn [bind]; [|discriminate].
  cbn [lift2 lift1 abs bind val]. intros [= <- <- <-]. split; reflexivity.
Qed.

Lemma Ht_complex_zlarge_is_consistent_witness :
  exists Ht Ht_magnitude amplitude,
    Ht_complex_zlarge (Cpx 1000 0.5) (Flt 0.4) = Ok (Ht, Ht_magnitude, amplitude) /\
    Ht_magnitude = abs_num Ht /\
    Ht = mul amplitude (Cpx (rexp (- pi * 1000 / 8)) 0).
Proof.
  destruct (Ht_complex_zlarge_returns (Cpx 1000 0.5) (Flt 0.4) 0.4)
    as (Ht & Ht_magnitude & amplitude & H);
    [unfold real_part; cbn; lra | reflexivity |].
  exists Ht, Ht_magnitude, amplitude. split; [exact H|].
  exact (Ht_complex_zlarge_is_consistent _ _ _ _ _ H).
Defined.

(** ** The functions run on the one-point rule *)

Lemma exp_num_parts (a : num) :
  exp_num a = Cpx (rexp (real_part a) * rcos (imag_part a))
                  (rexp (real_part a) * rsin (imag_part a)).
Proof. unfold exp_num. now rewrite as_complex_eq. Qed.

Lemma Ittheta_midpoint_returns (b beta t theta : num) :
  exists v, Ittheta_scaled_by_exp_z_pi_by_8 midpoint_rule b beta t theta = Ok v.
Proof.
  unfold Ittheta_scaled_by_exp_z_pi_by_8, quad, midpoint_rule.
  assert (Hdiv : exists q, (PI * scipy.real b / Int 8)%py = Ok q).
  { unfold PI. destruct b; cbn; rewrite float_quot_ok by lra; now eexists. }
  destruct Hdiv as [q Hq].
  unfold exp. rewrite !(lift2_bind add _ (PI * scipy.real b / Int 8)%py), Hq.
  cbn [lift1 lift2 bind val return_ scipy.real scipy.imag].
  rewrite (exp_num_parts (add _ q)).
  cbn [scipy.real_num scipy.imag_num silent retval as_double bind].
  now eexists.
Qed.

Lemma Kttheta_midpoint_returns {A : Type} (z t : num) (n : A) :
  real_part z <> 0 ->
  exists k, Kttheta_scaled_by_exp_z_pi_by_8 midpoint_rule z t n = Ok k.
Proof.
  intros Hz. unfold Kttheta_scaled_by_exp_z_pi_by_8.
  assert (Htheta : exists theta,
            (PI / Int 8 - Int 1 / (Int 4 * scipy.real z))%py = Ok theta).
  { unfold PI. destruct z as [m | x | re im]; unfold real_part in Hz; cbn in Hz;
      cbn -[Z.mul].
    - rewrite !float_quot_ok; try lra; [now eexists|].
      rewrite mult_IZR. apply Rmult_integral_contrapositive_currified; lra.
    - rewrite !float_quot_ok by lra. now eexists.
    - rewrite !float_quot_ok by lra. now eexists. }
  destruct Htheta as [theta ->]. cbn [bind]. unfold for_range.
  change (range 1 5) with [1; 2; 3; 4]%Z. cbn [fold_left bind].
  unfold call4. cbn [lift2 bind val].
  repeat match goal with
  | |- context [Ittheta_scaled_by_exp_z_pi_by_8 midpoint_rule ?b ?beta ?t ?th] =>
      let v := fresh "I" in
      destruct (Ittheta_midpoint_returns b beta t th) as [v ->]; cbn [bind]
  end.
  now eexists.
Qed.

Lemma real_part_conjugate (z : num) : real_part (conjugate_num z) = real_part z.
Proof. destruct z; reflexivity. Qed.

Lemma Ht_large_midpoint_returns (z t : num) :
  real_part z <> 0 ->
  exists v, Ht_large_scaled_by_exp_z_pi_by_8 midpoint_rule z t = Ok v.
Proof.
  intros Hz. unfold Ht_large_scaled_by_exp_z_pi_by_8.
  destruct (Kttheta_midpoint_returns z t (Int 5) Hz) as [k ->].
  cbn [conjugate lift1 lift2 bind val].
  destruct (Kttheta_midpoint_returns (conjugate_num z) t (Int 5)) as [k' ->];
    [now rewrite real_part_conjugate|].
  cbn [bind]. now eexists.
Qed.

Lemma complex_arguments_are_rejected_witness :
  Ht_real midpoint_rule (Cpx 30 0.25) (Flt 0.4) = Ok complex_values_not_allowed /\
  Ht_real_integrand (Flt 5) (Flt 30) (Cpx 0.4 (-1)) = Ok complex_values_not_allowed /\
  Ht_real midpoint_rule (Cpx 30 0) (Flt 0.4) <> Ok complex_values_not_allowed /\
  Ht_real_integrand (Int 5) (Cpx 30 0) (Flt 0.4) <> Ok complex_values_not_allowed.
Proof.
  split; [|split].
  - apply (complex_arguments_are_rejected midpoint_rule (Flt 5) (Cpx 30 0.25) (Flt 0.4)).
    left. unfold imag_part. cbn. lra.
  - apply (complex_arguments_are_rejected midpoint_rule (Flt 5) (Flt 30) (Cpx 0.4 (-1))).
    right; left. unfold imag_part. cbn. lra.
  - destruct (complex_arguments_are_rejected midpoint_rule (Int 5) (Cpx 30 0) (Flt 0.4))
      as (_ & _ & H).
    destruct (H eq_refl eq_refl) as [H1 H2]. split; [exact H1 | exact (H2 eq_refl)].
Defined.



Lemma Ht_large_is_the_symmetrization_witness :
  exists v k : num,
    Ht_large_scaled_by_exp_z_pi_by_8 midpoint_rule (Cpx 30 0) (Flt 0.4) = Ok v /\
    Kttheta_scaled_by_exp_z_pi_by_8 midpoint_rule (Cpx 30 0) (Flt 0.4) (Int 5) = Ok k /\
    v = mul (Flt 0.5) (add k (conjugate_num k)) /\
    imag_part v = 0 /\ real_part v = real_part k.
Proof.
  destruct (Ht_large_midpoint_returns (Cpx 30 0) (Flt 0.4)) as [v Hv];
    [unfold real_part; cbn; lra|].
  destruct (Ht_large_is_the_symmetrization midpoint_rule (Cpx 30 0) (Flt 0.4))
    as [_ Hreal].
  destruct (Hreal eq_refl v Hv) as (Him & k & Hk & Hsum & Hre).
  exists v, k. repeat split; assumption.
Defined.

Lemma Kttheta_raises_on_zero_real_part_witness :
  Kttheta_scaled_by_exp_z_pi_by_8 midpoint_rule (Flt 0) (Flt 0.4) (Int 5)
  = Raise ZeroDivisionError
  /\ Ht_large_scaled_by_exp_z_pi_by_8 midpoint_rule (Flt 0) (Flt 0.4)
     = Raise ZeroDivisionError.
Proof.
  exact (Kttheta_raises_on_zero_real_part midpoint_rule (Flt 0) (Flt 0.4) (Int 5)
           eq_refl).
Defined.

(** C5, as the specification states it, fails: at z = 0 + 2i the call
    raises [ZeroDivisionError], so no value, of any kind, is produced to
    be passed on to the quadrature. *)
Lemma Kttheta_at_2j_raises :
  Kttheta_scaled_by_exp_z_pi_by_8 midpoint_rule (Cpx 0 2) (Flt 0.4) (Int 5)
  = Raise ZeroDivisionError
  /\ ~ (exists v : num,
         Kttheta_scaled_by_exp_z_pi_by_8 midpoint_rule (Cpx 0 2) (Flt 0.4) (Int 5)
         = Ok v).
Proof.
  assert (H : Kttheta_scaled_by_exp_z_pi_by_8 midpoint_rule (Cpx 0 2) (Flt 0.4) (Int 5)
              = Raise ZeroDivisionError)
    by (apply Kttheta_zero_real_part; reflexivity).
  split; [exact H|]. intros [v Hv]. rewrite H in Hv. discriminate.
Qed.

(* ================================================================== *)
(** * Further properties *)
(* ================================================================== *)

(** ** Further properties of the series *)

(** X1.  With [n_max <= 0] the loop of [phi_decay] does not run: the
    result is the integer [0] it started from, whatever [u] is, and not
    a complex number. *)
Theorem phi_decay_of_empty_range (u : num) (n_max : Z) :
  (n_max <= 0)%Z -> phi_decay u n_max = Ok (Int 0).
Proof. intros H. unfold phi_decay. apply for_range_nil. lia. Qed.

Lemma phi_decay_of_empty_range_witness :
  phi_decay (Cpx 1 2) (-3) = Ok (Int 0).
Proof. apply (phi_decay_of_empty_range (Cpx 1 2) (-3)). lia. Defined.

Lemma pi_gt_3 : 3 < pi.
Proof. pose proof PI2_3_2. lra. Qed.

Lemma phi_term_positive (u n : R) : 0 <= u -> 1 <= n -> 0 < phi_term u n.
Proof.
  intros Hu Hn. unfold phi_term.
  apply Rmult_lt_0_compat; [|apply exp_pos].
  replace (9 * u) with (5 * u + 4 * u) by ring. rewrite exp_plus.
  pose proof pi_gt_3 as Hpi.
  pose proof (exp_pos (5 * u)) as H5.
  pose proof (exp_ineq1_le (4 * u)) as H4.
  assert (Hn2 : 1 <= n ^ 2) by nra.
  assert (He : 1 <= rexp (4 * u)) by lra.
  assert (Hne : 1 <= n ^ 2 * rexp (4 * u)).
  { replace 1 with (1 * 1) by ring. apply Rmult_le_compat; lra. }
  assert (Hk : 3 < 2 * pi * n ^ 2 * rexp (4 * u)).
  { replace (2 * pi * n ^ 2 * rexp (4 * u))
      with (2 * pi * (n ^ 2 * rexp (4 * u))) by ring. nra. }
  replace (2 * pi ^ 2 * n ^ 4 * (rexp (5 * u) * rexp (4 * u))
           - 3 * pi * n ^ 2 * rexp (5 * u))
    with (pi * n ^ 2 * rexp (5 * u) * (2 * pi * n ^ 2 * rexp (4 * u) - 3)) by ring.
  apply Rmult_lt_0_compat; [|lra].
  apply Rmult_lt_0_compat; [|exact H5].
  apply Rmult_lt_0_compat; lra.
Qed.

Lemma phi_partial_sum_positive (u : R) (k : nat) :
  0 <= u -> 0 < sum_f_R0 (fun i => phi_term u (INR (S i))) k.
Proof.
  intros Hu. induction k as [|k IH]; cbn [sum_f_R0].
  - apply phi_term_positive; [exact Hu|]. rewrite S_INR, INR_0. lra.
  - apply Rplus_lt_0_compat; [exact IH|].
    apply phi_term_positive; [exact Hu|].
    rewrite S_INR. pose proof (pos_INR (S k)). lra.
Qed.

(** X2.  For real [u] between 0 and 1 every term of the series is
    positive: [phi_decay(u, n_max)] is positive for [n_max >= 1], and one
    more term does not make it smaller.  (In exact arithmetic it makes
    it larger; a double absorbs a term too small to change the sum, so
    the order is stated without strictness.) *)
Theorem phi_decay_positive_and_nondecreasing (u : num) (n_max : Z) :
  imag_part u = 0 ->
  0 <= real_part u <= 1 ->
  (0 < n_max)%Z ->
  2 * pi ^ 2 * IZR (n_max + 1) ^ 4 * rexp (9 * real_part u) <= double_ceiling ->
  exists s s' : R,
    phi_decay u n_max = Ok (Cpx s 0) /\
    phi_decay u (n_max + 1) = Ok (Cpx s' 0) /\
    0 < s <= s'.
Proof.
  intros Hi [Hu _] Hn _.
  destruct (Z.to_nat n_max) as [|k] eqn:Hk; [lia|].
  replace n_max with (Z.of_nat (S k)) by lia.
  replace (Z.of_nat (S k) + 1)%Z with (Z.of_nat (S (S k))) by lia.
  rewrite (phi_decay_succ u k Hi), (phi_decay_succ u (S k) Hi).
  do 2 eexists. split; [reflexivity|]. split; [reflexivity|].
  cbn [sum_f_R0]. split.
  - now apply phi_partial_sum_positive.
  - assert (0 < phi_term (real_part u) (INR (S (S k)))).
    { apply phi_term_positive; [exact Hu|].
      rewrite S_INR. pose proof (pos_INR (S k)). lra. }
    lra.
Qed.

Lemma phi_decay_positive_and_nondecreasing_witness :
  exists s s' : R,
    phi_decay (Flt 0.25) 100 = Ok (Cpx s 0) /\
    phi_decay (Flt 0.25) (100 + 1) = Ok (Cpx s' 0) /\
    0 < s <= s'.
Proof.
  pose proof PI_RGT_0 as Hpi0. pose proof PI_4 as Hpi4.
  assert (Hpi2 : pi ^ 2 <= 16) by nra.
  assert (He : rexp (9 * 0.25) <= 3 ^ 3).
  { apply (exp_le_pow3 (9 * 0.25) 3). cbn. lra. }
  pose proof (exp_pos (9 * 0.25)) as Hep.
  apply (phi_decay_positive_and_nondecreasing (Flt 0.25) 100);
    unfold real_part; cbn [as_complex fst].
  - reflexivity.
  - lra.
  - lia.
  - apply below_double_ceiling.
    replace (IZR (100 + 1)) with 101 by (rewrite plus_IZR; ring).
    assert (Hn : 0 < 101 ^ 4) by (apply pow_lt; lra).
    apply Rle_trans with (2 * 16 * 101 ^ 4 * 3 ^ 3); [|lra].
    apply Rmult_le_compat; [| lra | | exact He].
    + apply Rmult_le_pos; [nra | lra].
    + apply Rmult_le_compat_r; lra.
Defined.

(** ** [Nt] outside T > 0 *)





(** X3.  [Nt(t, T)] raises [ValueError] at [T = 0] (the logarithm of zero),
    whatever [t] is, and [TypeError] for a [T] of type complex, even one
    with no imaginary part ([float(T)]). *)
Theorem Nt_outside_its_domain (t T : num) :
  (real_value T = Some 0 -> Nt t T = Raise ValueError) /\
  (forall re im : R, Nt t (Cpx re im) = Raise TypeError).
Proof.
  split.
  - intros HT.
    assert (Hfloat : float_num T = Ok (Flt 0)) by (destruct T; inversion HT; reflexivity).
    unfold Nt, float, log, lift2, bind2, val, bind. rewrite Hfloat.
    unfold PI. cbn [mul div]. rewrite float_quot_ok by (pose proof PI_RGT_0; lra).
    unfold log_num. cbn [as_complex].
    rewrite (is_zero_true (0 / (4 * pi))) by (unfold Rdiv; ring).
    rewrite (is_zero_true 0) by reflexivity. reflexivity.
  - intros re im. reflexivity.
Qed.

Lemma Nt_outside_its_domain_witness :
  Nt (Flt 0.4) (Int 0) = Raise ValueError /\
  Nt (Flt 0.4) (Cpx 100 0) = Raise TypeError.
Proof.
  split.
  - apply (Nt_outside_its_domain (Flt 0.4) (Int 0)). reflexivity.
  - apply (Nt_outside_its_domain (Flt 0.4) (Int 0)).
Defined.



(** ** [Ht_complex_zlarge]: when it raises, and what it returns *)

(** X5.  [Ht_complex_zlarge(z, t)] does not return in two cases.  For a
    [t] of type complex it raises [TypeError], whatever [z] is, even
    when [t] has no imaginary part.  For an [int] or [float] [t] and a
    [z] whose real part is zero it raises [ValueError]: the logarithm of
    zero is met before the division by [2j*x].  ([z] and [t] inside the
    range of a double.) *)
Theorem Ht_complex_zlarge_rejections (z t : num) :
  (Rabs (real_part z) <= double_ceiling ->
   forall re im : R, Ht_complex_zlarge z (Cpx re im) = Raise TypeError) /\
  (forall tv : R, real_value t = Some tv -> Rabs tv <= double_ceiling ->
     real_part z = 0 -> Ht_complex_zlarge z t = Raise ValueError).
Proof.
  split.
  - intros _ re im. unfold Ht_complex_zlarge.
    rewrite float_real, float_imag. reflexivity.
  - intros tv Ht _ Hx. pose proof PI_RGT_0 as Hpi.
    unfold Ht_complex_zlarge.
    rewrite float_real, float_imag, (float_of_real t tv Ht), Hx. cbn [bind].
    unfold PI, PI_sq, j, log, sqrt, exp, pow, abs.
    unfold lift2, lift1, bind2, val. cbn [bind mul div add sub neg].
    rewrite !float_quot_ok by lra. cbn [bind mul div add sub neg].
    unfold log_num. cbn [as_complex].
    rewrite (is_zero_true (0 / (4 * pi))) by (unfold Rdiv; ring).
    rewrite (is_zero_true 0) by reflexivity. reflexivity.
Qed.

Lemma Ht_complex_zlarge_rejections_witness :
  Ht_complex_zlarge (Cpx 1000 0.5) (Cpx 0.4 0) = Raise TypeError /\
  Ht_complex_zlarge (Cpx 0 1000) (Flt 0.4) = Raise ValueError.
Proof.
  split.
  - apply (Ht_complex_zlarge_rejections (Cpx 1000 0.5) (Flt 0.4)).
    apply below_double_ceiling. unfold real_part. cbn [as_complex fst].
    rewrite Rabs_pos_eq; lra.
  - apply (Ht_complex_zlarge_rejections (Cpx 0 1000) (Flt 0.4)) with (tv := 0.4).
    + reflexivity.
    + apply below_double_ceiling. rewrite Rabs_pos_eq; lra.
    + reflexivity.
Defined.

Lemma hypot_scaled (a b e : R) :
  0 <= e -> hypot (a * e - b * 0) (a * 0 + b * e) = hypot a b * e.
Proof.
  intros He. unfold hypot.
  replace ((a * e - b * 0) * (a * e - b * 0) + (a * 0 + b * e) * (a * 0 + b * e))
    with ((a * a + b * b) * (e * e)) by ring.
  rewrite sqrt_mult; [| nra | nra]. now rewrite (sqrt_square e He).
Qed.

(** X6.  The magnitude [Ht_complex_zlarge] returns is the modulus of the
    amplitude it returns times exp(−π·x/8), x the real part of [z]. *)
Theorem Ht_complex_zlarge_magnitude
    (z t : num) (Ht Ht_magnitude amplitude : num) :
  Ht_complex_zlarge z t = Ok (Ht, Ht_magnitude, amplitude) ->
  Ht_magnitude
  = Flt (hypot (real_part amplitude) (imag_part amplitude)
         * rexp (- pi * real_part z / 8)).
Proof.
  unfold Ht_complex_zlarge.
  destruct (float (scipy.real z)) as [x | e] eqn:Hx; cbn [bind]; [|discriminate].
  destruct (float (scipy.imag z)) as [y | e]; cbn [bind]; [|discriminate].
  destruct (float t) as [t' | e]; cbn [bind]; [|discriminate].
  destruct (x / (Int 4 * PI))%py as [x_by_4PI | e]; cbn [bind]; [|discriminate].
  match goal with |- bind ?m _ = _ -> _ => destruct m as [B | e] end;
    cbn [bind]; [|discriminate].
  match goal with |- bind ?m _ = _ -> _ => destruct m as [A1 | e] end;
    cbn [bind]; [|discriminate].
  apply float_num_Ok in Hx. destruct (real_num_parts z) as [Rz _].
  rewrite Rz in Hx. subst x. rewrite A2_value. cbn [bind].
  match goal with |- bind ?m _ = _ -> _ => destruct m as [A3 | e] end;
    cbn [bind]; [|discriminate].
  match goal with |- bind ?m _ = _ -> _ => destruct m as [amp | e] end;
    cbn [bind]; [|discriminate].
  cbn [lift2 lift1 abs bind val]. intros [= <- <- <-].
  rewrite mul_Cpx_r. cbn [abs_num]. f_equal.
  apply hypot_scaled. left. apply exp_pos.
Qed.

Lemma Ht_complex_zlarge_magnitude_witness :
  exists Ht Ht_magnitude amplitude,
    Ht_complex_zlarge (Cpx 1000 0.5) (Flt 0.4) = Ok (Ht, Ht_magnitude, amplitude) /\
    Ht_magnitude
    = Flt (hypot (real_part amplitude) (imag_part amplitude)
           * rexp (- pi * 1000 / 8)).
Proof.
  destruct (Ht_complex_zlarge_returns (Cpx 1000 0.5) (Flt 0.4) 0.4)
    as (Ht & Ht_magnitude & amplitude & H);
    [unfold real_part; cbn; lra | reflexivity |].
  exists Ht, Ht_magnitude, amplitude. split; [exact H|].
  exact (Ht_complex_zlarge_magnitude _ _ _ _ _ H).
Defined.

(** ** Symmetries *)

Lemma neg_parts (a : num) :
  real_part (neg a) = - real_part a /\ imag_part (neg a) = - imag_part a.
Proof.
  destruct a; unfold real_part, imag_part; cbn; rewrite ?opp_IZR; split; ring.
Qed.

Lemma cosh_even (y : R) : cosh (- y) = cosh y.
Proof. unfold cosh. rewrite Ropp_involutive. f_equal. ring. Qed.

Lemma sinh_odd (y : R) : sinh (- y) = - sinh y.
Proof. unfold sinh. rewrite Ropp_involutive. field. Qed.

Lemma cos_num_parts (a : num) :
  cos_num a = Cpx (rcos (real_part a) * cosh (imag_part a))
                  (- (rsin (real_part a) * sinh (imag_part a))).
Proof. unfold cos_num. now rewrite as_complex_eq. Qed.

(** The cosine kernel does not see the sign of [z]. *)
Lemma cos_num_mul_neg (z u : num) : cos_num (mul (neg z) u) = cos_num (mul z u).
Proof.
  rewrite !cos_num_parts.
  destruct (mul_parts (neg z) u) as [Rn In]. destruct (mul_parts z u) as [Rp Ip].
  destruct (neg_parts z) as [Rz Iz].
  rewrite Rn, In, Rp, Ip, Rz, Iz.
  replace (- real_part z * real_part u - - imag_part z * imag_part u)
    with (- (real_part z * real_part u - imag_part z * imag_part u)) by ring.
  replace (- real_part z * imag_part u + - imag_part z * real_part u)
    with (- (real_part z * imag_part u + imag_part z * real_part u)) by ring.
  rewrite cos_neg, sin_neg, cosh_even, sinh_odd. f_equal. ring.
Qed.

Lemma Ht_complex_integrand_even (u z t : num) :
  Ht_complex_integrand u (neg z) t = Ht_complex_integrand u z t.
Proof.
  unfold Ht_complex_integrand, cos, lift2, lift1, val, bind.
  now rewrite cos_num_mul_neg.
Qed.

Lemma guard_neg (z : num) :
  (abs (scipy.imag (neg z)) > Int 0)%py = (abs (scipy.imag z) > Int 0)%py.
Proof.
  destruct (neg_parts z) as [_ Iz].
  destruct (guard_cases z) as [[H ->] | [H ->]].
  - apply guard_false. rewrite Iz, H. ring.
  - apply guard_true. rewrite Iz. lra.
Qed.

Lemma real_num_neg (z : num) : scipy.real_num (neg z) = neg (scipy.real_num z).
Proof. destruct z; reflexivity. Qed.

Lemma Ht_real_integrand_even (u z t : num) :
  Ht_real_integrand u (neg z) t = Ht_real_integrand u z t.
Proof.
  unfold Ht_real_integrand. rewrite guard_neg.
  destruct (or_ (or_ (abs (scipy.imag z) > Int 0)%py (abs (scipy.imag t) > Int 0)%py)
              (abs (scipy.imag u) > Int 0)%py) as [[|] | e]; try reflexivity.
  cbn [bind scipy.real lift1 val]. rewrite real_num_neg.
  change (return_ (scipy.real (Ht_complex_integrand
            (scipy.real_num u) (neg (scipy.real_num z)) (scipy.real_num t)))
          = return_ (scipy.real (Ht_complex_integrand
            (scipy.real_num u) (scipy.real_num z) (scipy.real_num t)))).
  now rewrite Ht_complex_integrand_even.
Qed.

Lemma conjugate_num_involutive (z : num) : conjugate_num (conjugate_num z) = z.
Proof. destruct z; cbn; try reflexivity. now rewrite Ropp_involutive. Qed.

Lemma symmetrization_conjugate (k k' : num) :
  mul (Flt 0.5) (add k' (conjugate_num k))
  = conjugate_num (mul (Flt 0.5) (add k (conjugate_num k'))).
Proof.
  destruct k, k'; cbn; rewrite ?plus_IZR; f_equal; lra.
Qed.

Section Symmetries.

Variable quadpack : (R -> result returned) -> R -> R -> result (R * R).

(** X7.  [Ht_complex(-z, t)] and [Ht_complex(z, t)] are the same outcome,
    for every [z] and [t]: the integrand sees [z] through [cos(z*u)]
    only. *)
Theorem Ht_complex_is_even (z t : num) :
  Ht_complex quadpack (neg z) t = Ht_complex quadpack z t.
Proof.
  rewrite !Ht_complex_unfold. f_equal.
  - f_equal. apply functional_extensionality. intros x.
    now rewrite Ht_complex_integrand_even.
  - apply functional_extensionality. intros r. f_equal. f_equal.
    apply functional_extensionality. intros x.
    now rewrite Ht_complex_integrand_even.
Qed.

(** X8.  [Ht_real(-z, t)] and [Ht_real(z, t)] are the same outcome, for
    every [z] and [t], the rejected ones included. *)
Theorem Ht_real_is_even (z t : num) :
  Ht_real quadpack (neg z) t = Ht_real quadpack z t.
Proof.
  unfold Ht_real. rewrite guard_neg.
  destruct (or_ (abs (scipy.imag z) > Int 0)%py (abs (scipy.imag t) > Int 0)%py)
    as [[|] | e]; try reflexivity.
  cbn [bind scipy.real lift1 val]. unfold quad. rewrite real_num_neg.
  f_equal. f_equal. apply functional_extensionality. intros x.
  apply Ht_real_integrand_even.
Qed.

(** X9.  When [Ht_large_scaled_by_exp_z_pi_by_8(z, t)] returns [v], the call
    at the conjugate of [z] returns the conjugate of [v]. *)
Theorem Ht_large_is_hermitian (z t v : num) :
  Ht_large_scaled_by_exp_z_pi_by_8 quadpack z t = Ok v ->
  Ht_large_scaled_by_exp_z_pi_by_8 quadpack (conjugate_num z) t
  = Ok (conjugate_num v).
Proof.
  unfold Ht_large_scaled_by_exp_z_pi_by_8, conjugate, lift2, lift1, val.
  cbn [bind]. rewrite conjugate_num_involutive.
  destruct (Kttheta_scaled_by_exp_z_pi_by_8 quadpack z t (Int 5))
    as [k | e]; cbn [bind]; [|discriminate].
  destruct (Kttheta_scaled_by_exp_z_pi_by_8 quadpack (conjugate_num z) t (Int 5))
    as [k' | e]; cbn [bind]; [|discriminate].
  intros [= <-]. now rewrite symmetrization_conjugate.
Qed.

(** X10.  Two arguments with no imaginary part and the same real part
    are one argument to [Ht_real], whatever their Python types; the same
    for [t]. *)
Theorem Ht_real_reads_real_parts (z z' t t' : num) :
  imag_part z = 0 -> imag_part z' = 0 -> real_part z = real_part z' ->
  imag_part t = 0 -> imag_part t' = 0 -> real_part t = real_part t' ->
  Ht_real quadpack z t = Ht_real quadpack z' t'.
Proof.
  intros Hz Hz' Rz Ht Ht' Rt.
  rewrite (Ht_real_integrates quadpack z t Hz Ht),
    (Ht_real_integrates quadpack z' t' Hz' Ht').
  f_equal. f_equal. apply functional_extensionality. intros x.
  destruct (real_num_parts z) as [Rnz Inz]. destruct (real_num_parts z') as [Rnz' Inz'].
  destruct (real_num_parts t) as [Rnt Int_]. destruct (real_num_parts t') as [Rnt' Int'].
  rewrite (Ht_real_integrand_value (Flt x) _ _ eq_refl Inz Int_),
    (Ht_real_integrand_value (Flt x) _ _ eq_refl Inz' Int').
  now rewrite Rnz, Rnz', Rnt, Rnt', Rz, Rt.
Qed.

End Symmetries.

Lemma Ht_large_is_hermitian_witness :
  exists v : num,
    Ht_large_scaled_by_exp_z_pi_by_8 midpoint_rule (Cpx 30 2) (Flt 0.4) = Ok v /\
    Ht_large_scaled_by_exp_z_pi_by_8 midpoint_rule (Cpx 30 (- 2)) (Flt 0.4)
    = Ok (conjugate_num v).
Proof.
  destruct (Ht_large_midpoint_returns (Cpx 30 2) (Flt 0.4)) as [v Hv];
    [unfold real_part; cbn; lra|].
  exists v. split; [exact Hv|].
  exact (Ht_large_is_hermitian midpoint_rule (Cpx 30 2) (Flt 0.4) v Hv).
Defined.

Lemma Ht_real_reads_real_parts_witness :
  Ht_real midpoint_rule (Cpx 30 0) (Int 1) = Ht_real midpoint_rule (Int 30) (Flt 1).
Proof.
  apply (Ht_real_reads_real_parts midpoint_rule (Cpx 30 0) (Int 30) (Int 1) (Flt 1));
    reflexivity.
Defined.

(** ** The root finders *)

Lemma trial_point (x y : R) :
  (float (Flt x) + j * float (Flt y))%py = Ok (Cpx x y).
Proof. apply assemble_complex. Qed.

Section RootFinderFacts.

Variable quadpack : (R -> result returned) -> R -> R -> result (R * R).

Lemma Ht_complex_helper_unfold (x y : R) (t : num) :
  Ht_complex_root_finding_helper quadpack (Flt x, Flt y) t
  = (r <- Ht_complex quadpack (Cpx x y) t ;;
     Ok (scipy.real_num (fst (fst r)), scipy.imag_num (fst (fst r)))).
Proof.
  unfold Ht_complex_root_finding_helper. cbn [fst snd].
  rewrite trial_point. cbn [bind].
  destruct (Ht_complex quadpack (Cpx x y) t) as [r | e]; reflexivity.
Qed.

Lemma Ht_large_helper_unfold (x y : R) (t : num) :
  Ht_large_root_finding_helper quadpack (Flt x, Flt y) t
  = (v <- Ht_large_scaled_by_exp_z_pi_by_8 quadpack (Cpx x y) t ;;
     Ok (scipy.real_num v, scipy.imag_num v)).
Proof.
  unfold Ht_large_root_finding_helper. cbn [fst snd].
  rewrite trial_point. cbn [bind].
  destruct (Ht_large_scaled_by_exp_z_pi_by_8 quadpack (Cpx x y) t) as [v | e];
    reflexivity.
Qed.

(** X12.  At every trial vector whose first entry is 0 the residual
    [Ht_large_root_finding_helper] raises [ZeroDivisionError]. *)
Theorem Ht_large_helper_fails_on_the_imaginary_axis (y : R) (t : num) :
  Ht_large_root_finding_helper quadpack (Flt 0, Flt y) t = Raise ZeroDivisionError.
Proof.
  rewrite Ht_large_helper_unfold. unfold Ht_large_scaled_by_exp_z_pi_by_8.
  rewrite (Kttheta_zero_real_part quadpack (Cpx 0 y) t (Int 5) eq_refl).
  reflexivity.
Qed.

(** X13.  At a trial vector (x, 0) the residual
    [Ht_large_root_finding_helper], when it returns, has second entry
    exactly 0 and first entry the real part of K(x, t). *)
Theorem Ht_large_helper_on_the_real_axis (x : R) (t re im : num) :
  Ht_large_root_finding_helper quadpack (Flt x, Flt 0) t = Ok (re, im) ->
  im = Flt 0 /\
  exists k : num,
    Kttheta_scaled_by_exp_z_pi_by_8 quadpack (Cpx x 0) t (Int 5) = Ok k /\
    re = Flt (real_part k).
Proof.
  rewrite Ht_large_helper_unfold.
  unfold Ht_large_scaled_by_exp_z_pi_by_8, conjugate, lift2, lift1, val.
  cbn [bind]. rewrite (conjugate_num_real (Cpx x 0) eq_refl).
  destruct (Kttheta_scaled_by_exp_z_pi_by_8 quadpack (Cpx x 0) t (Int 5))
    as [k | e]; cbn [bind]; [|discriminate].
  intros [= <- <-]. destruct (symmetrized_parts k) as [Him Hre].
  split.
  - destruct k as [n | r | a b]; cbn; [reflexivity | reflexivity |].
    f_equal. lra.
  - exists k. split; [reflexivity|].
    destruct k as [n | r | a b]; unfold real_part; cbn;
      rewrite ?plus_IZR; f_equal; lra.
Qed.

(** On the real axis the two integrals are quadratures of the
    real-valued integrand and of zero. *)
Lemma Ht_real_as_quadrature (z t : num) :
  imag_part z = 0 -> imag_part t = 0 ->
  Ht_real quadpack z t
  = (r <- quadpack (fun u => Ok (silent (Number
            (Flt (real_integrand (real_part z) (real_part t) u))))) 0 10 ;;
     Ok (silent (Pair (Flt (fst r)) (Flt (snd r))))).
Proof.
  intros Hz Ht. rewrite (Ht_real_integrates quadpack z t Hz Ht). do 2 f_equal.
  apply functional_extensionality. intros x.
  destruct (real_num_parts z) as [Rz Iz]. destruct (real_num_parts t) as [Rt It].
  now rewrite (Ht_real_integrand_value (Flt x) _ _ eq_refl Iz It), Rz, Rt.
Qed.

Lemma Ht_complex_on_the_real_axis (z t : num) :
  imag_part z = 0 -> imag_part t = 0 ->
  Ht_complex quadpack z t
  = (r <- quadpack (fun u => Ok (silent (Number
            (Flt (real_integrand (real_part z) (real_part t) u))))) 0 10 ;;
     i <- quadpack (fun _ => Ok (silent (Number (Flt 0)))) 0 10 ;;
     Ok (Cpx (fst r) (fst i), Flt (snd r), Flt (snd i))).
Proof.
  intros Hz Ht. rewrite Ht_complex_unfold. f_equal.
  - f_equal. apply functional_extensionality. intros x.
    now apply Ht_complex_real_func.
  - apply functional_extensionality. intros r. do 2 f_equal.
    apply functional_extensionality. intros x.
    now apply Ht_complex_imag_func.
Qed.

(** X14.  For [t] with no imaginary part, the first entry of the residual
    [Ht_complex_root_finding_helper] at (x, 0) is the value [Ht_real(x, t)]
    returns. *)
Theorem Ht_complex_helper_on_the_real_axis (x : R) (t re im : num) :
  imag_part t = 0 ->
  Ht_complex_root_finding_helper quadpack (Flt x, Flt 0) t = Ok (re, im) ->
  exists abserr : R,
    Ht_real quadpack (Flt x) t = Ok (silent (Pair re (Flt abserr))).
Proof.
  intros Ht. rewrite Ht_complex_helper_unfold.
  rewrite (Ht_complex_on_the_real_axis (Cpx x 0) t eq_refl Ht).
  rewrite (Ht_real_as_quadrature (Flt x) t eq_refl Ht).
  change (real_part (Cpx x 0)) with (real_part (Flt x)).
  destruct (quadpack _ 0 10) as [[qy qe] | e]; cbn [bind fst snd]; [|discriminate].
  destruct (quadpack _ 0 10) as [[iy ie] | e]; cbn [bind fst snd]; [|discriminate].
  intros [= <- _]. now exists qe.
Qed.

End RootFinderFacts.

(** ** The residuals run on the one-point rule *)

Lemma Ht_complex_helper_midpoint_returns (x : R) (t : num) :
  imag_part t = 0 ->
  exists re im : num,
    Ht_complex_root_finding_helper midpoint_rule (Flt x, Flt 0) t = Ok (re, im).
Proof.
  intros Ht. rewrite Ht_complex_helper_unfold.
  rewrite (Ht_complex_on_the_real_axis midpoint_rule (Cpx x 0) t eq_refl Ht).
  cbn [midpoint_rule bind retval silent as_double fst snd]. now do 2 eexists.
Qed.

Lemma Ht_large_helper_midpoint_returns (x y : R) (t : num) :
  x <> 0 ->
  exists re im : num,
    Ht_large_root_finding_helper midpoint_rule (Flt x, Flt y) t = Ok (re, im).
Proof.
  intros Hx. rewrite Ht_large_helper_unfold.
  destruct (Ht_large_midpoint_returns (Cpx x y) t Hx) as [v ->].
  cbn [bind]. now do 2 eexists.
Qed.

Lemma Ht_large_helper_on_the_real_axis_witness :
  exists re k : num,
    Ht_large_root_finding_helper midpoint_rule (Flt 30, Flt 0) (Flt 0.4)
    = Ok (re, Flt 0) /\
    Kttheta_scaled_by_exp_z_pi_by_8 midpoint_rule (Cpx 30 0) (Flt 0.4) (Int 5) = Ok k /\
    re = Flt (real_part k).
Proof.
  destruct (Ht_large_helper_midpoint_returns 30 0 (Flt 0.4)) as (re & im & H);
    [lra|].
  destruct (Ht_large_helper_on_the_real_axis midpoint_rule 30 (Flt 0.4) re im H)
    as (Him & k & Hk & Hre).
  subst im. exists re, k. repeat split; assumption.
Defined.

Lemma Ht_complex_helper_on_the_real_axis_witness :
  exists (re im : num) (abserr : R),
    Ht_complex_root_finding_helper midpoint_rule (Flt 30, Flt 0) (Flt 0.4)
    = Ok (re, im) /\
    Ht_real midpoint_rule (Flt 30) (Flt 0.4) = Ok (silent (Pair re (Flt abserr))).
Proof.
  destruct (Ht_complex_helper_midpoint_returns 30 (Flt 0.4) eq_refl)
    as (re & im & H).
  destruct (Ht_complex_helper_on_the_real_axis midpoint_rule 30 (Flt 0.4) re im
              eq_refl H) as [abserr Hreal].
  exists re, im, abserr. split; assumption.
Defined.
